(** * litewarp/graphql: the global node resolver, the caller-context parser
      and the compiled read queries of the connection projection.

    Sources embedded below:
    - [packages/graphql/src/schema/resolvers/global-node.ts]
      ([globalNodeResolver], its inner [resolve]);
    - the [ContextParser] class ([parseTag], [getContextProperty],
      [getJwtPropery]), with the [get] of the dot-prop package it calls;
    - the Cypher text the translation tests expect for reads with
      authorization rules on connections. *)

From Stdlib Require Import DecimalString.
From stdpp Require Import gmap strings list.

Set Warnings "-register-all".

Local Open Scope string_scope.

(** ** JavaScript values *)

Module JS.

(** The values that flow through the resolver and the caller context. An
    object is a finite map from the names of its own properties to their
    values, all of them data properties; an array is such an object (its
    indices and its [length]), and so is a function, since nothing here
    ever calls one. A string is the sequence of its code units, those
    below 256. *)
Inductive jsval :=
| JUndefined
| JNull
| JBool (b : bool)
| JNum (n : Z)
| JStr (s : string)
| JObj (o : gmap string jsval).

(** The outcome of running a piece of JavaScript: a value, or a thrown
    error. *)
Inductive completion (A : Type) :=
| Normal (a : A)
| Throw (e : string).
Arguments Normal {A} a.
Arguments Throw {A} e.

(** [!v] is [negb (truthy v)]. *)
Definition truthy (v : jsval) : bool :=
  match v with
  | JUndefined | JNull => false
  | JBool b => b
  | JNum n => negb (n =? 0)%Z
  | JStr s => negb (String.eqb s EmptyString)
  | JObj _ => true
  end.

(** [v === undefined || v === null]. *)
Definition isNullish (v : jsval) : bool :=
  match v with
  | JUndefined | JNull => true
  | _ => false
  end.

(** [v === undefined]. *)
Definition isUndefined (v : jsval) : bool :=
  match v with
  | JUndefined => true
  | _ => false
  end.

(** What a value inherits through its prototype chain under a name, and
    [undefined] when it inherits nothing under it: the members of
    [Object.prototype], [String.prototype] and the like, and whatever the
    running program has added to them. The built-in objects are no part of
    the sources, so the table is a parameter: what is proved below holds for
    every such table. *)
Class Prototypes := inherited : jsval -> string -> jsval.

(** The name of the [i]-th character of a string as a property: [i] in
    decimal, without leading zeros. *)
Definition indexKey (i : nat) : string :=
  NilZero.string_of_uint (Nat.to_uint i).

(** The character of [s] that is named [k], the first character of [s]
    being named [indexKey i]. *)
Fixpoint charAtKey (i : nat) (s k : string) : option jsval :=
  match s with
  | EmptyString => None
  | String c s' =>
      if String.eqb k (indexKey i) then Some (JStr (String c EmptyString))
      else charAtKey (S i) s' k
  end.

(** The own properties of a value: those of the map for an object, the
    characters and the [length] for a string, none for a number or a
    boolean. *)
Definition ownProperty (o : jsval) (k : string) : option jsval :=
  match o with
  | JObj m => m !! k
  | JStr s =>
      if String.eqb k "length" then Some (JNum (Z.of_nat (String.length s)))
      else charAtKey 0 s k
  | _ => None
  end.

(** [o[k]]: reading a property of [undefined] or [null] throws a TypeError;
    any other value answers its own property of that name and, when it has
    none, what it inherits. *)
Definition getProp {proto : Prototypes} (o : jsval) (k : string) : completion jsval :=
  match o with
  | JUndefined | JNull => Throw "TypeError"
  | _ => Normal (default (inherited o k) (ownProperty o k))
  end.

(** The plain chain of reads [o.a.b.c]: it throws as soon as it has to read
    a property of [undefined] or [null]. *)
Fixpoint readChain {proto : Prototypes} (o : jsval) (segs : list string)
    : completion jsval :=
  match segs with
  | [] => Normal o
  | k :: rest =>
      match getProp o k with
      | Throw e => Throw e
      | Normal o' => readChain o' rest
      end
  end.

(** [s.split(sep)] for a separator that is not empty: the pieces between
    the occurrences of [sep], read from the left. [skip] counts the
    characters of a separator just found that are still to be passed over;
    [acc] is the piece being read. *)
Fixpoint split_go (sep : string) (skip : nat) (acc s : string) : list string :=
  match s with
  | EmptyString => [acc]
  | String c s' =>
      match skip with
      | S k => split_go sep k acc s'
      | O =>
          if String.prefix sep s
          then acc :: split_go sep (String.length sep - 1) EmptyString s'
          else split_go sep 0 (acc +:+ String c EmptyString) s'
      end
  end.

Definition split (sep s : string) : list string :=
  split_go sep 0 EmptyString s.

(** [s.includes(sep)]: [sep] occurs somewhere in [s]. *)
Fixpoint includes (sep s : string) : bool :=
  String.prefix sep s
  || match s with
     | EmptyString => false
     | String _ s' => includes sep s'
     end.

(** The values [!v] holds for. *)
Definition falsy : list jsval :=
  [JUndefined; JNull; JBool false; JNum 0; JStr EmptyString].

End JS.
Import JS.

(** ** dot-prop *)

Module DotProp.

(** [dotProp.get(object, path)] of the dot-prop package the parser imports.
    The package is an npm dependency, not a file of the repository; what
    follows is its [index.js] as of version 6, the one with two arguments
    (no default value):

    - [isObj]: an object or a function, not [null];
    - [getPathSegments]: the path is cut at its dots, a piece that ends in a
      backslash is joined to the next one with a dot in place of the
      backslash, and a path one of whose segments is [__proto__],
      [prototype] or [constructor] has no segments at all;
    - [get]: an [object] that is no object is answered as it is, a path
      without segments gives [undefined]; otherwise the segments are read
      one after the other with [object = object[segment]], and as soon as a
      read gives [undefined] or [null] before the last segment the answer
      is [undefined]. *)
Definition isObj (v : jsval) : bool :=
  match v with
  | JObj _ => true
  | _ => false
  end.

Definition backslash : Ascii.ascii := Ascii.ascii_of_nat 92.

(** [p[p.length - 1] === backslash] *)
Fixpoint endsWithBackslash (p : string) : bool :=
  match p with
  | EmptyString => false
  | String c p' =>
      match p' with
      | EmptyString => Ascii.eqb c backslash
      | String _ _ => endsWithBackslash p'
      end
  end.

(** [p.slice(0, -1)] *)
Fixpoint dropLast (p : string) : string :=
  match p with
  | EmptyString => EmptyString
  | String c p' =>
      match p' with
      | EmptyString => EmptyString
      | String _ _ => String c (dropLast p')
      end
  end.

(** The loop of [getPathSegments] over the pieces of the path: [p] is the
    piece at hand, [rest] the pieces after it. *)
Fixpoint joinEscaped (p : string) (rest : list string) : list string :=
  match rest with
  | [] => [p]
  | q :: rest' =>
      if endsWithBackslash p
      then joinEscaped (dropLast p +:+ "." +:+ q) rest'
      else p :: joinEscaped q rest'
  end.

Definition disallowedKeys : list string :=
  ["__proto__"; "prototype"; "constructor"].

Definition isValidPath (segments : list string) : bool :=
  negb (existsb (fun segment => existsb (String.eqb segment) disallowedKeys)
          segments).

Definition pathParts (path : string) : list string :=
  match split "." path with
  | [] => []
  | p :: rest => joinEscaped p rest
  end.

Definition getPathSegments (path : string) : list string :=
  if isValidPath (pathParts path) then pathParts path else [].

(** The loop of [get]. Every read goes through [getProp], so a read of
    [undefined] or [null] would show as [Throw]. *)
Fixpoint walk {proto : Prototypes} (object : jsval) (pathArray : list string)
    : completion jsval :=
  match pathArray with
  | [] => Normal object
  | k :: rest =>
      match getProp object k with
      | Throw e => Throw e
      | Normal o' =>
          if isNullish o'
          then match rest with
               | [] => Normal o'
               | _ :: _ => Normal JUndefined
               end
          else walk o' rest
      end
  end.

Definition get {proto : Prototypes} (object : jsval) (path : string)
    : completion jsval :=
  if isObj object
  then match getPathSegments path with
       | [] => Normal JUndefined
       | pathArray => walk object pathArray
       end
  else Normal object.

End DotProp.

(** ** ContextParser *)

Module ContextParser.

Inductive TagName := TagContext | TagJwt.

Definition tagName (t : TagName) : string :=
  match t with
  | TagContext => "context"
  | TagJwt => "jwt"
  end.

(** [parseTag(value: string, tagName)]:
    [const [, path] = value?.split?.(`$${tagName}.`) || []; return path;]
    for a [value] of the type the signature declares, a string; [None] is
    [undefined]. The optional chaining is there for values the signature
    does not admit. *)
Definition parseTag (value : string) (t : TagName) : option string :=
  split ("$" +:+ tagName t +:+ ".") value !! 1.

(** The separator [parseTag] splits at: [`$${tagName}.`]. *)
Definition tagPrefix (t : TagName) : string := "$" +:+ tagName t +:+ ".".

(** The separator of [t] occurs in [value]. *)
Definition mentionsTag (t : TagName) (value : string) : bool :=
  includes (tagPrefix t) value.

(** [context.jwt], and [undefined] for a context that is [undefined] or
    [null]. *)
Definition jwtOf {proto : Prototypes} (context : jsval) : jsval :=
  match getProp context "jwt" with
  | Normal v => v
  | Throw _ => JUndefined
  end.

(** [getContextProperty(path, context)]:
    [dotProp.get({ value: context }, `value.${path}`)]. *)
Definition getContextProperty {proto : Prototypes} (path : string) (context : jsval)
    : completion jsval :=
  DotProp.get (JObj {[ "value" := context ]}) ("value." +:+ path).

(** [getJwtPropery(path, context)]:
    [ContextParser.getContextProperty(`jwt.${path}`, context)]. *)
Definition getJwtPropery {proto : Prototypes} (path : string) (context : jsval)
    : completion jsval :=
  getContextProperty ("jwt." +:+ path) context.

(** The lookup a tag stands for: [$context.path] is read with
    [getContextProperty], [$jwt.path] with [getJwtPropery], which reads the
    path under [jwt]. *)
Definition lookupTag {proto : Prototypes} (t : TagName) (path : string)
    (context : jsval) : completion jsval :=
  match t with
  | TagContext => getContextProperty path context
  | TagJwt => getJwtPropery path context
  end.

Definition tagPath (t : TagName) (path : string) : string :=
  match t with
  | TagContext => path
  | TagJwt => "jwt." +:+ path
  end.

(** What the plain chain of reads [context.a.b.c] along the segments
    arrives at: [undefined] where the chain would throw. *)
Definition chainValue {proto : Prototypes} (context : jsval) (segs : list string)
    : jsval :=
  match readChain context segs with
  | Normal v => v
  | Throw _ => JUndefined
  end.

(** "The path can be resolved in the context": the path has segments, and
    the plain chain of reads along them arrives, without throwing, at a
    value other than [undefined]. *)
Definition resolves {proto : Prototypes} (path : string) (context : jsval) : bool :=
  match DotProp.getPathSegments path with
  | [] => false
  | segs =>
      match readChain context segs with
      | Normal v => negb (isUndefined v)
      | Throw _ => false
      end
  end.

End ContextParser.

(** ** The global node resolver *)

Module GlobalNode.

(** What [resolve] reads of a [Node] of the schema: its name and the answer
    of [getMainLabel()]. *)
Record Node := { name : string; getMainLabel : string }.

(** The object [fromGlobalId] answers, destructured as
    [{ label, field, id }]. *)
Record GlobalIdParts := { label : jsval; field : jsval; id : jsval }.

(** A row of the execution result: its [this] column is the projected node
    (a map) or nothing. *)
Record Row := { this : option (gmap string jsval) }.

Record ExecuteResult := { records : list Row }.

(** The token decodes into all of its three components: none of them is
    falsy. *)
Definition decodesFully (parts : GlobalIdParts) : bool :=
  truthy (label parts) && truthy (field parts) && truthy (id parts).

Section Resolver.
Context {Context Info ResolveTree Params : Type}.

(** The collaborators [resolve] imports; their files are not part of the
    sources, so they are parameters, each standing for the value its call
    returns ([resolve] catches nothing: what a collaborator throws passes
    through it unchanged). [withResolveTree c t] is the context after
    [context.resolveTree = t]. *)
Variable fromGlobalId : string -> GlobalIdParts.
Variable getNeo4jResolveTree : Info -> ResolveTree.
Variable withResolveTree : Context -> ResolveTree -> Context.
Variable translateRead : Context -> Node -> string * Params.

Record ExecuteInput := {
  cypher : string;
  params : Params;
  defaultAccessMode : string;
  context : Context
}.

Variable execute : ExecuteInput -> ExecuteResult.

(** [n.getMainLabel() === label] *)
Definition labelMatches (l : jsval) (n : Node) : bool :=
  match l with
  | JStr s => String.eqb (getMainLabel n) s
  | _ => false
  end.

(** [{ ...row, ...obj }]: the properties of [obj] win. *)
Definition spread (row obj : gmap string jsval) : gmap string jsval :=
  obj ∪ row.

(** [resolve(_root, _args, _context, info)]. The answer is [None] for
    [null]; the second component lists the calls of [execute] in the
    order they were made. *)
Definition resolve (nodes : list Node) (args_id : string)
    (_context : Context) (info : Info)
    : option (gmap string jsval) * list ExecuteInput :=
  let parts := fromGlobalId args_id in
  if negb (truthy (label parts)) || negb (truthy (field parts))
     || negb (truthy (id parts))
  then (None, [])
  else
    match List.find (labelMatches (label parts)) nodes with
    | None => (None, [])
    | Some node =>
        let context := withResolveTree _context (getNeo4jResolveTree info) in
        let '(cypher, params) := translateRead context node in
        let input := {| cypher := cypher; params := params;
                        defaultAccessMode := "READ"; context := context |} in
        let executeResult := execute input in
        let obj : gmap string jsval :=
          {[ "id" := JStr args_id; "__resolveType" := JStr (name node) ]} in
        let obj :=
          match records executeResult with
          | {| this := Some row |} :: _ => spread row obj
          | _ => obj
          end in
        (Some obj, [input])
    end.

(** What [globalNodeResolver({ nodes })] returns: the field's type, its
    [resolve] and its arguments. *)
Record FieldConfig := {
  fieldType : string;
  fieldResolve : string -> Context -> Info
                 -> option (gmap string jsval) * list ExecuteInput;
  fieldArgs : gmap string string
}.

Definition globalNodeResolver (nodes : list Node) : FieldConfig :=
  {| fieldType := "Node";
     fieldResolve := resolve nodes;
     fieldArgs := {[ "id" := "ID!" ]} |}.

End Resolver.

End GlobalNode.

(** ** The compiled read queries *)

Module Cypher.

(** *** The property graph the queries run against *)

Inductive cval :=
| VNull
| VBool (b : bool)
| VInt (n : Z)
| VStr (s : string)
| VList (l : list cval)
| VMap (m : list (string * cval)).

Record GNode := {
  nodeId : nat;
  labels : list string;
  props : gmap string cval
}.

(** A relationship [(src)-[:relType]->(tgt)]. *)
Record GRel := { relType : string; src : nat; tgt : nat }.

Record Graph := { nodes : list GNode; rels : list GRel }.

(** [IN] is the pattern [(v)<-[:T]-(x)], [OUT] is [(v)-[:T]->(x)]. *)
Inductive Direction := IN | OUT.

Definition dir_eqb (a b : Direction) : bool :=
  match a, b with
  | IN, IN | OUT, OUT => true
  | _, _ => false
  end.

(** *** Predicates

    The boolean expressions of the expected Cypher text:
    [v.f IS NOT NULL], [v.f = $p], [(a AND b)],
    [exists((v)<-[:T]-(:`L`))] and
    [any(x IN [(v)<-[:T]-(x:`L`) | x] WHERE body)] (also [all]), and the
    literal [false] (see [Injector.injectLeaf]). *)
Inductive Quantifier := QAny | QAll.

Inductive cexpr :=
| CIsNotNull (v f : string)
| CEqParam (v f p : string)
| CAnd (a b : cexpr)
| CExists (v : string) (d : Direction) (T L : string)
| CQuant (q : Quantifier) (x v : string) (d : Direction) (T L : string) (body : cexpr)
| CFalse.

(** The shape every rule leaf has in the expected text:
    [(v.f IS NOT NULL AND v.f = $p)]. *)
Definition authLeaf (v f p : string) : cexpr :=
  CAnd (CIsNotNull v f) (CEqParam v f p).

(** The shape of a rule that goes through a relationship:
    [(exists(pattern) AND any|all(x IN [pattern | x] WHERE body))]. *)
Definition authRel (q : Quantifier) (x v : string) (d : Direction)
    (T L : string) (body : cexpr) : cexpr :=
  CAnd (CExists v d T L) (CQuant q x v d T L body).

(** *** One level of a read

    Modelled from the spec: the translator of reads (the read compiler of
    section 4.4 with the authorization injector of section 4.3) is not among
    the sources; only the statements it is expected to emit are. A [Level]
    is such a statement in the shape the connection tests expect, and
    [CypherText.readLines] prints it back. A level binds [var] to a node
    with label [label], keeps the rows that pass every conjunct of [wheres]
    (the user filter and the Where rules), runs [apoc.util.validate] on the
    negation of [allow] (the Allow rules) when there is one, opens one
    [CALL { ... }] per connection field and projects [fields] and the
    connections. *)
Record Via := {
  connName : string;
  relVar : string;
  viaType : string;
  viaDir : Direction
}.

Inductive Level :=
| MkLevel (var label : string) (wheres : list cexpr) (allow : option cexpr)
    (fields : list string) (conns : list (Via * Level)).

Definition levelVar (l : Level) : string :=
  match l with MkLevel v _ _ _ _ _ => v end.
Definition levelLabel (l : Level) : string :=
  match l with MkLevel _ lb _ _ _ _ => lb end.
Definition levelWheres (l : Level) : list cexpr :=
  match l with MkLevel _ _ w _ _ _ => w end.
Definition levelAllow (l : Level) : option cexpr :=
  match l with MkLevel _ _ _ a _ _ => a end.
Definition levelFields (l : Level) : list string :=
  match l with MkLevel _ _ _ _ f _ => f end.
Definition levelConns (l : Level) : list (Via * Level) :=
  match l with MkLevel _ _ _ _ _ c => c end.

(** The one message every validation of a read carries. *)
Definition FORBIDDEN : string := "@neo4j/graphql/FORBIDDEN".

(** *** Evaluation *)

Section Eval.
Variable g : Graph.
Variable params : gmap string jsval.

(** The value Cypher sees for [$p]: what is not a primitive of the
    parameter table is null. *)
Definition paramValue (p : string) : cval :=
  match params !! p with
  | Some (JStr s) => VStr s
  | Some (JNum n) => VInt n
  | Some (JBool b) => VBool b
  | _ => VNull
  end.

(** [a = b] in a WHERE or a validation: a comparison with null is not
    true. *)
Definition primEq (a b : cval) : bool :=
  match a, b with
  | VStr x, VStr y => String.eqb x y
  | VInt x, VInt y => (x =? y)%Z
  | VBool x, VBool y => Bool.eqb x y
  | _, _ => false
  end.

Definition prop (n : GNode) (f : string) : cval :=
  default VNull (props n !! f).

Definition hasLabel (L : string) (n : GNode) : bool :=
  existsb (String.eqb L) (labels n).

Definition nodeById (i : nat) : option GNode :=
  List.find (fun m => Nat.eqb (nodeId m) i) (nodes g).

(** The nodes [x] of the rows of [(n)<-[:T]-(x:L)] or [(n)-[:T]->(x:L)],
    one per relationship. *)
Definition related (d : Direction) (T L : string) (n : GNode) : list GNode :=
  omap (fun r =>
          let '(here, there) :=
            match d with
            | IN => (tgt r, src r)
            | OUT => (src r, tgt r)
            end in
          if String.eqb (relType r) T && Nat.eqb here (nodeId n)
          then match nodeById there with
               | Some m => if hasLabel L m then Some m else None
               | None => None
               end
          else None)
       (rels g).

(** Whether a predicate is true on a row. A comparison with null counts as
    not true, which is all a WHERE asks. For a rule of the expected
    statements whose parameter is not null, "not true" is Cypher's false,
    never its null: [(v.f IS NOT NULL AND v.f = $p)] is false when [v.f] is
    null. *)
Fixpoint evalExpr (env : gmap string GNode) (e : cexpr) : bool :=
  match e with
  | CIsNotNull v f =>
      match env !! v with
      | Some n => match prop n f with VNull => false | _ => true end
      | None => false
      end
  | CEqParam v f p =>
      match env !! v with
      | Some n => primEq (prop n f) (paramValue p)
      | None => false
      end
  | CAnd a b => evalExpr env a && evalExpr env b
  | CExists v d T L =>
      match env !! v with
      | Some n =>
          match related d T L n with
          | [] => false
          | _ :: _ => true
          end
      | None => false
      end
  | CQuant q x v d T L body =>
      match env !! v with
      | Some n =>
          let test := fun m => evalExpr (<[x := m]> env) body in
          match q with
          | QAny => existsb test (related d T L n)
          | QAll => forallb test (related d T L n)
          end
      | None => false
      end
  | CFalse => false
  end.

(** Rows in, values out: a row the WHERE drops gives nothing, a row whose
    validation fires ends the statement. *)
Fixpoint collectRows (f : GNode -> completion (option cval))
    (rows : list GNode) : completion (list cval) :=
  match rows with
  | [] => Normal []
  | m :: rest =>
      match f m with
      | Throw e => Throw e
      | Normal r =>
          match collectRows f rest with
          | Throw e => Throw e
          | Normal vs =>
              Normal (match r with Some v => v :: vs | None => vs end)
          end
      end
  end.

(** [collect(x)], [UNWIND l AS x] and [size(l)]. *)
Definition collect (rows : list cval) : cval := VList rows.

Definition unwind (v : cval) : list cval :=
  match v with
  | VList l => l
  | VNull => []
  | x => [x]
  end.

Definition size (v : cval) : cval :=
  match v with
  | VList l => VInt (Z.of_nat (length l))
  | _ => VNull
  end.

(** Modelled from the spec: the connection shape of section 4.4 (edges, each
    [{ node }], plus a total count), as the four closing clauses of a
    connection's [CALL] block in the expected statements, over the
    projected nodes of the rows that are left:
    [WITH collect({ node: ... }) AS edges]
    [UNWIND edges as edge]
    [WITH collect(edge) AS edges, size(collect(edge)) AS totalCount]
    [RETURN { edges: edges, totalCount: totalCount } AS name]. *)
Definition connectionTail (projected : list cval) : cval :=
  let edges := collect (map (fun nd => VMap [("node", nd)]) projected) in
  let edge := unwind edges in
  let edges := collect edge in
  let totalCount := size (collect edge) in
  VMap [("edges", edges); ("totalCount", totalCount)].

(** [WHERE a AND b AND ...]: the row is kept when every conjunct is
    true. *)
Definition whereKeeps (env : gmap string GNode) (conjuncts : list cexpr) : bool :=
  forallb (evalExpr env) conjuncts.

(** [CALL apoc.util.validate(NOT (pred), message, [0])]: it throws its
    message when [NOT (pred)] is true. *)
Definition validateThrows (env : gmap string GNode) (pred : cexpr) : bool :=
  negb (evalExpr env pred).

Definition passesWhere (env : gmap string GNode) (l : Level) (n : GNode) : bool :=
  whereKeeps (<[levelVar l := n]> env) (levelWheres l).

(** [CALL apoc.util.validate(NOT (allow), FORBIDDEN, [0])] for the row
    that binds the level's variable to [n]: [true] when it throws. *)
Definition validateFires (env : gmap string GNode) (l : Level) (n : GNode) : bool :=
  match levelAllow l with
  | Some a => validateThrows (<[levelVar l := n]> env) a
  | None => false
  end.

(** The [CALL { ... }] block of one connection, for the row of the
    enclosing level that is bound to [n]; [child] evaluates one row of the
    block's own MATCH. *)
Definition evalConnection (child : GNode -> completion (option cval))
    (rows : list GNode) : completion cval :=
  match collectRows child rows with
  | Throw e => Throw e
  | Normal projected => Normal (connectionTail projected)
  end.

(** The [CALL] blocks of the connections of one level, in their order, for
    the row bound to [n]; [ev] evaluates a row of a block's own level. *)
Definition evalConns (ev : Level -> GNode -> completion (option cval))
    (n : GNode) : list (Via * Level) -> completion (list (string * cval)) :=
  fix go (cs : list (Via * Level)) : completion (list (string * cval)) :=
    match cs with
    | [] => Normal []
    | (via, child) :: cs' =>
        match evalConnection (ev child)
                (related (viaDir via) (viaType via) (levelLabel child) n) with
        | Throw e => Throw e
        | Normal v =>
            match go cs' with
            | Throw e => Throw e
            | Normal vs => Normal ((connName via, v) :: vs)
            end
        end
    end.

(** Modelled from the spec: what the statement of a level does with one
    row, in the order of its clauses: the WHERE, then the validation,
    which ends the whole statement (section 4.3: an Allow rule aborts the
    entire statement when false), then the connections, then the
    projection. [None] when the WHERE drops the row. *)
Fixpoint evalLevel (env : gmap string GNode) (l : Level) (n : GNode)
    {struct l} : completion (option cval) :=
  match l with
  | MkLevel var label wheres allow fields conns =>
      let env' := <[var := n]> env in
      if negb (whereKeeps env' wheres) then Normal None
      else if match allow with
              | Some a => validateThrows env' a
              | None => false
              end
      then Throw FORBIDDEN
      else
        match evalConns (evalLevel env') n conns with
        | Throw e => Throw e
        | Normal vs =>
            Normal (Some (VMap (map (fun f => (f, prop n f)) fields ++ vs)))
        end
  end.

(** The whole statement: [MATCH (var:`label`)] over every node of the
    graph with that label. *)
Definition evalRead (q : Level) : completion (list cval) :=
  collectRows (evalLevel ∅ q) (List.filter (hasLabel (levelLabel q)) (nodes g)).

(** An Allow rule evaluates false somewhere in the tree: at this level for
    the row bound to [n], or at a level below, on a row the statement
    reaches through rows that pass their WHERE. *)
Inductive violates : gmap string GNode -> Level -> GNode -> Prop :=
| violates_here env l n :
    passesWhere env l n = true ->
    validateFires env l n = true ->
    violates env l n
| violates_below env l n via child m :
    passesWhere env l n = true ->
    In (via, child) (levelConns l) ->
    In m (related (viaDir via) (viaType via) (levelLabel child) n) ->
    violates (<[levelVar l := n]> env) child m ->
    violates env l n.

End Eval.

End Cypher.

(** ** A rule leaf over a caller-context path *)

Module Injector.
Import Cypher.

(** Modelled from the spec: the authorization injector of section 4.3 is
    not among the sources; only [ContextParser], which it reads the caller
    context with, and statements it is expected to emit are. Section 4.3
    has a rule resolve its caller-context path to a literal-valued leaf and
    has a path that cannot be resolved make the comparison evaluate false,
    not error. [injectLeaf v f p lookup] is the leaf for the field [f] at
    the variable [v], given the outcome [lookup] of reading the path: the
    comparison of the expected statements,
    [(v.f IS NOT NULL AND v.f = $p)], with the value bound to [$p], and the
    literal [false], with no parameter, when the read gave [undefined]. *)
Definition injectLeaf (v f p : string) (lookup : completion jsval)
    : completion (cexpr * gmap string jsval) :=
  match lookup with
  | Throw e => Throw e
  | Normal JUndefined => Normal (CFalse, ∅)
  | Normal value => Normal (authLeaf v f p, {[ p := value ]})
  end.

(** Modelled from the spec: the predicates a rule builds around a leaf, in
    the shapes of the expected statements: the leaf itself, a conjunction
    that has the rule on one side (fields of one rule, or the user's filter
    next to a Where rule), and the form of a rule that goes through a
    relationship, [(exists(pattern) AND any|all(x IN [pattern | x] WHERE
    rule))]. *)
Inductive guards (leaf : cexpr) : cexpr -> Prop :=
| guards_leaf : guards leaf leaf
| guards_and_l a b : guards leaf a -> guards leaf (CAnd a b)
| guards_and_r a b : guards leaf b -> guards leaf (CAnd a b)
| guards_rel q x v d T L body :
    guards leaf body -> guards leaf (authRel q x v d T L body).

End Injector.

(** ** The text of a compiled read *)

Module CypherText.
Import Cypher.

(** The double quote character of the expected text. *)
Definition dq : string := String (Ascii.ascii_of_nat 34) EmptyString.

Definition join (sep : string) (l : list string) : string :=
  match l with
  | [] => EmptyString
  | x :: rest => fold_left (fun acc y => acc +:+ sep +:+ y) rest x
  end.

(** [(v)<-[r:T]-target] or [(v)-[r:T]->target]; [r] may be empty. *)
Definition pattern (v : string) (d : Direction) (r T target : string) : string :=
  match d with
  | IN => "(" +:+ v +:+ ")<-[" +:+ r +:+ ":" +:+ T +:+ "]-" +:+ target
  | OUT => "(" +:+ v +:+ ")-[" +:+ r +:+ ":" +:+ T +:+ "]->" +:+ target
  end.

Definition quantName (q : Quantifier) : string :=
  match q with
  | QAny => "any"
  | QAll => "all"
  end.

Fixpoint showExpr (e : cexpr) : string :=
  match e with
  | CIsNotNull v f => v +:+ "." +:+ f +:+ " IS NOT NULL"
  | CEqParam v f p => v +:+ "." +:+ f +:+ " = $" +:+ p
  | CAnd a b => "(" +:+ showExpr a +:+ " AND " +:+ showExpr b +:+ ")"
  | CExists v d T L =>
      "exists(" +:+ pattern v d EmptyString T ("(:`" +:+ L +:+ "`)") +:+ ")"
  | CQuant q x v d T L body =>
      quantName q +:+ "(" +:+ x +:+ " IN ["
      +:+ pattern v d EmptyString T ("(" +:+ x +:+ ":`" +:+ L +:+ "`)")
      +:+ " | " +:+ x +:+ "] WHERE " +:+ showExpr body +:+ ")"
  | CFalse => "false"
  end.

(** The WHERE line of the root ([(a AND b)], in brackets) and of a
    connection block ([a AND b], without). *)
Definition rootWhere (ws : list cexpr) : list string :=
  match ws with
  | [] => []
  | [w] => ["WHERE " +:+ showExpr w]
  | _ => ["WHERE (" +:+ join " AND " (map showExpr ws) +:+ ")"]
  end.

Definition connWhere (ws : list cexpr) : list string :=
  match ws with
  | [] => []
  | _ => ["WHERE " +:+ join " AND " (map showExpr ws)]
  end.

Definition validateLine (allow : option cexpr) : list string :=
  match allow with
  | Some a =>
      ["CALL apoc.util.validate(NOT (" +:+ showExpr a +:+ "), "
       +:+ dq +:+ FORBIDDEN +:+ dq +:+ ", [0])"]
  | None => []
  end.

(** The lines of the [CALL { ... }] block of the connection [via] under
    the variable [parent]. *)
Fixpoint connLines (parent : string) (via : Via) (l : Level) {struct l}
    : list string :=
  match l with
  | MkLevel var label wheres allow fields conns =>
      ["CALL {";
       "WITH " +:+ parent;
       "MATCH " +:+ pattern parent (viaDir via) (relVar via) (viaType via)
                     ("(" +:+ var +:+ ":" +:+ label +:+ ")")]
      ++ connWhere wheres
      ++ validateLine allow
      ++ (fix go (cs : list (Via * Level)) : list string :=
            match cs with
            | [] => []
            | (v, c) :: cs' => (connLines var v c ++ go cs')%list
            end) conns
      ++ ["WITH collect({ node: { "
          +:+ join ", " (map (fun f => f +:+ ": " +:+ var +:+ "." +:+ f) fields
                         ++ map (fun vc => connName (fst vc) +:+ ": "
                                           +:+ connName (fst vc)) conns)
          +:+ " } }) AS edges";
          "UNWIND edges as edge";
          "WITH collect(edge) AS edges, size(collect(edge)) AS totalCount";
          "RETURN { edges: edges, totalCount: totalCount } AS " +:+ connName via;
          "}"]
  end.

(** The lines of the whole statement. *)
Definition readLines (q : Level) : list string :=
  match q with
  | MkLevel var label wheres allow fields conns =>
      ["MATCH (" +:+ var +:+ ":`" +:+ label +:+ "`)"]
      ++ rootWhere wheres
      ++ validateLine allow
      ++ flat_map (fun vc => connLines var (fst vc) (snd vc)) conns
      ++ ["RETURN " +:+ var +:+ " { "
          +:+ join ", " (map (fun f => "." +:+ f) fields
                         ++ map (fun vc => connName (fst vc)) conns)
          +:+ " } as " +:+ var]
  end.

End CypherText.

(** ** The statements of the tests *)

Module Expected.
Import Cypher.

(** [allow: { id: "$jwt.sub" }] on [User], at the variable [v]. *)
Definition userAllow (v : string) : cexpr :=
  authLeaf v "id" (v +:+ "auth_param0").

(** [{ creator: { id: "$jwt.sub" } }] on [Post], at the variable [v]. *)
Definition postRule (q : Quantifier) (v : string) : cexpr :=
  authRel q "auth_this0" v IN "HAS_POST" "User"
    (authLeaf "auth_this0" "id" (v +:+ "auth_param0")).

Definition postsVia : Via :=
  {| connName := "postsConnection"; relVar := "this_has_post_relationship";
     viaType := "HAS_POST"; viaDir := OUT |}.

Definition creatorVia : Via :=
  {| connName := "creatorConnection";
     relVar := "this_post_has_post_relationship";
     viaType := "HAS_POST"; viaDir := IN |}.

(** "One connection": [users { name postsConnection { edges { node { content } } } }]
    with the Allow rules of [User] and [Post]. *)
Definition oneConnection : Level :=
  MkLevel "this" "User" [] (Some (userAllow "this")) ["name"]
    [(postsVia,
      MkLevel "this_post" "Post" [] (Some (postRule QAny "this_post"))
        ["content"] [])].

(** "Two connection": the same with [creatorConnection] under the posts. *)
Definition twoConnection : Level :=
  MkLevel "this" "User" [] (Some (userAllow "this")) ["name"]
    [(postsVia,
      MkLevel "this_post" "Post" [] (Some (postRule QAny "this_post"))
        ["content"]
        [(creatorVia,
          MkLevel "this_post_user" "User" []
            (Some (userAllow "this_post_user")) ["name"] [])])].

(** "Read Connection" of the Where rules:
    [users { id postsConnection { edges { node { content } } } }]. *)
Definition readConnection : Level :=
  MkLevel "this" "User" [userAllow "this"] None ["id"]
    [(postsVia,
      MkLevel "this_post" "Post" [postRule QAll "this_post"] None
        ["content"] [])].

(** "Read Connection + User Defined Where":
    [postsConnection(where: { node: { id: "some-id" } })]. *)
Definition readConnectionWhere : Level :=
  MkLevel "this" "User" [userAllow "this"] None ["id"]
    [(postsVia,
      MkLevel "this_post" "Post"
        [CEqParam "this_post" "id" "this_postsConnection_args_where_Postparam0";
         postRule QAll "this_post"] None
        ["content"] [])].

(** "Read Node + User Defined Where": [users(where: { name: "bob" }) { id }]. *)
Definition readNodeWhere : Level :=
  MkLevel "this" "User" [CEqParam "this" "name" "param0"; userAllow "this"]
    None ["id"] [].

(** The parameter tables of "One connection" and "Two connection". *)
Definition oneConnectionParams : gmap string jsval :=
  {[ "this_postauth_param0" := JStr "super_admin";
     "thisauth_param0" := JStr "super_admin" ]}.

Definition twoConnectionParams : gmap string jsval :=
  {[ "this_postauth_param0" := JStr "super_admin";
     "this_post_userauth_param0" := JStr "super_admin";
     "thisauth_param0" := JStr "super_admin" ]}.

End Expected.

(** ** Sample data for the examples *)

Module Sample.
Import Cypher GlobalNode.

(** A table of inherited members to run the examples with: every value has
    a [toString] and a [constructor], a string a [split] besides. *)
Definition builtins : Prototypes := fun o k =>
  if String.eqb k "toString" || String.eqb k "constructor"
  then JObj {[ "name" := JStr k ]}
  else match o with
       | JStr _ => if String.eqb k "split"
                   then JObj {[ "name" := JStr k ]}
                   else JUndefined
       | _ => JUndefined
       end.

(** A decoder to run the resolver with: the token is read as
    [label:field:id]. *)
Definition colonDecoder (token : string) : GlobalIdParts :=
  match split ":" token with
  | [l; f; i] => {| label := JStr l; field := JStr f; id := JStr i |}
  | _ => {| label := JUndefined; field := JUndefined; id := JUndefined |}
  end.

(** The same decoder for integer identifiers: an id written [0] is the
    number 0. *)
Definition intDecoder (token : string) : GlobalIdParts :=
  let parts := colonDecoder token in
  {| label := label parts; field := field parts;
     id := match id parts with
           | JStr "0" => JNum 0
           | v => v
           end |}.

(** A decoder that keeps the label and answers a fixed field and id. *)
Definition labelDecoder (token : string) : GlobalIdParts :=
  {| label := label (colonDecoder token); field := JStr "any";
     id := JStr "any" |}.

(** A database that answers one record for every statement. *)
Definition keanu : ExecuteResult :=
  {| records := [{| this := Some {[ "id" := JStr "123455";
                                   "name" := JStr "Keanu" ]} |}] |}.

Definition movie : Node := {| name := "Movie"; getMainLabel := "Movie" |}.
Definition actor : Node := {| name := "Actor"; getMainLabel := "Actor" |}.

Definition noRecords : ExecuteResult := {| records := [] |}.

(** Two users; the first has two posts, the second one. *)
Definition user (i : nat) (uid nm : string) : GNode :=
  {| nodeId := i; labels := ["User"];
     props := {[ "id" := VStr uid; "name" := VStr nm ]} |}.

Definition post (i : nat) (c : string) : GNode :=
  {| nodeId := i; labels := ["Post"]; props := {[ "content" := VStr c ]} |}.

Definition hasPost (u p : nat) : GRel :=
  {| relType := "HAS_POST"; src := u; tgt := p |}.

Definition blog : Graph :=
  {| nodes := [user 1 "id-01" "bob"; user 2 "id-02" "eve";
               post 11 "first"; post 12 "second"; post 21 "other"];
     rels := [hasPost 1 11; hasPost 1 12; hasPost 2 21] |}.

(** The caller of the Where tests: [{ sub: "id-01", roles: ["admin"] }]
    under [jwt], the roles left out. *)
Definition caller : jsval :=
  JObj {[ "jwt" := JObj {[ "sub" := JStr "id-01" ]} ]}.

Definition whereParams : gmap string jsval :=
  {[ "thisauth_param0" := JStr "id-01"; "this_postauth_param0" := JStr "id-01" ]}.

(** A read whose root keeps the caller's own user (a Where rule) and whose
    posts carry an Allow rule. *)
Definition mixed : Level :=
  MkLevel "this" "User" [Expected.userAllow "this"] None ["id"]
    [(Expected.postsVia,
      MkLevel "this_post" "Post" [] (Some (Expected.postRule QAny "this_post"))
        ["content"] [])].

Definition mixedParams : gmap string jsval :=
  {[ "thisauth_param0" := JStr "id-01"; "this_postauth_param0" := JStr "id-02" ]}.

(** The rule [{ creator: { id: ... } }] of [Post] around a leaf. *)
Definition creatorRule (leaf : cexpr) : cexpr :=
  authRel QAny "auth_this0" "this_post" IN "HAS_POST" "User" leaf.

End Sample.

(** * Theorems *)

(** ** The global node resolver *)

Section ResolverFacts.
Import GlobalNode.
Context {Context Info ResolveTree Params : Type}.
Variable fromGlobalId : string -> GlobalIdParts.
Variable getNeo4jResolveTree : Info -> ResolveTree.
Variable withResolveTree : Context -> ResolveTree -> Context.
Variable translateRead : Context -> Node -> string * Params.
Variable execute : @ExecuteInput Context Params -> ExecuteResult.

Abbreviation resolve :=
  (resolve fromGlobalId getNeo4jResolveTree withResolveTree translateRead execute).

Lemma resolve_guard (parts : GlobalIdParts) :
  negb (truthy (label parts)) || negb (truthy (field parts))
    || negb (truthy (id parts)) = negb (decodesFully parts).
Proof.
  unfold decodesFully.
  destruct (truthy (label parts)), (truthy (field parts)),
    (truthy (id parts)); reflexivity.
Qed.

(** C9. When the token does not decode into all three components, or the
    decoded label is the main label of no node of the schema, [resolve]
    answers [null] and has called [execute] not once. *)
Theorem resolve_not_found (nodes : list Node) (token : string)
    (_context : Context) (info : Info) :
  decodesFully (fromGlobalId token) = false
  \/ List.find (labelMatches (label (fromGlobalId token))) nodes = None ->
  resolve nodes token _context info = (None, []).
Proof.
  intros H. unfold GlobalNode.resolve. rewrite resolve_guard.
  destruct (decodesFully (fromGlobalId token)) eqn:Hd; simpl; [|reflexivity].
  destruct H as [H|H]; [discriminate|].
  rewrite H. reflexivity.
Qed.

(** C10. When the token decodes and its label is the main label of a node
    of the schema, [resolve] answers an object whose [id] is the token and
    whose [__resolveType] is the name of that node, after one call of
    [execute]; when that call returned no record, or a first record
    without [this], the object has these two properties and no other. *)
Theorem resolve_found (nodes : list Node) (token : string)
    (_context : Context) (info : Info) (node : Node) :
  decodesFully (fromGlobalId token) = true ->
  List.find (labelMatches (label (fromGlobalId token))) nodes = Some node ->
  exists (obj : gmap string jsval) (input : ExecuteInput),
    resolve nodes token _context info = (Some obj, [input])
    /\ obj !! "id" = Some (JStr token)
    /\ obj !! "__resolveType" = Some (JStr (name node))
    /\ (records (execute input) = []
        \/ (exists rest, records (execute input) = {| this := None |} :: rest) ->
        obj = {[ "id" := JStr token; "__resolveType" := JStr (name node) ]}).
Proof.
  intros Hd Hfind. unfold GlobalNode.resolve.
  rewrite resolve_guard, Hd, Hfind. simpl.
  destruct (translateRead _ node) as [cy ps] eqn:Htr.
  set (input := {| cypher := cy; params := ps; defaultAccessMode := "READ";
                   context := withResolveTree _context (getNeo4jResolveTree info) |}).
  set (obj0 := ({[ "id" := JStr token; "__resolveType" := JStr (name node) ]}
                : gmap string jsval)).
  assert (Hid : obj0 !! "id" = Some (JStr token)) by (subst obj0; by simplify_map_eq).
  assert (Hty : obj0 !! "__resolveType" = Some (JStr (name node)))
    by (subst obj0; by simplify_map_eq).
  destruct (records (execute input)) as [|[[row|]] rest] eqn:Hrec.
  - exists obj0, input. repeat split; auto.
  - exists (spread row obj0), input. unfold spread. repeat split.
    + by apply lookup_union_Some_l.
    + by apply lookup_union_Some_l.
    + rewrite Hrec. intros [H|[rest' H]]; [discriminate|].
      injection H as H _. discriminate.
  - exists obj0, input. repeat split; auto.
Qed.

(** [resolve] runs at most one query, and that one in READ mode. *)
Lemma resolve_queries (nodes : list Node) (token : string)
    (_context : Context) (info : Info) :
  Forall (fun input => defaultAccessMode input = "READ")
    (snd (resolve nodes token _context info))
  /\ length (snd (resolve nodes token _context info)) <= 1.
Proof.
  unfold GlobalNode.resolve.
  destruct (_ || _); [by split; [constructor | simpl; lia]|].
  destruct (List.find _ nodes); [|by split; [constructor | simpl; lia]].
  destruct (translateRead _ _). simpl. split; [|lia].
  by repeat constructor.
Qed.

End ResolverFacts.

(** The resolver run with the sample decoder on a schema of two nodes and a
    database that answers no record. *)
Abbreviation sampleResolve :=
  (GlobalNode.resolve Sample.colonDecoder (fun _ : unit => tt)
     (fun (c : unit) (_ : unit) => c)
     (fun (_ : unit) (n : GlobalNode.Node) => ("MATCH (this:" +:+ GlobalNode.name n +:+ ")", tt))
     (fun _ => Sample.noRecords) [Sample.actor; Sample.movie]).

Lemma resolve_not_found_witness :
  sampleResolve "no-such-token" tt tt = (None, [])
  /\ sampleResolve "Director:name:Ang Lee" tt tt = (None, []).
Proof.
  split.
  - apply resolve_not_found. left. reflexivity.
  - apply resolve_not_found. right. reflexivity.
Defined.

Lemma resolve_found_witness :
  exists obj input,
    sampleResolve "Movie:title:A River Runs Through It" tt tt = (Some obj, [input])
    /\ obj !! "id" = Some (JStr "Movie:title:A River Runs Through It")
    /\ obj !! "__resolveType" = Some (JStr "Movie")
    /\ (GlobalNode.records Sample.noRecords = []
        \/ (exists rest,
              GlobalNode.records Sample.noRecords
              = {| GlobalNode.this := None |} :: rest) ->
        obj = {[ "id" := JStr "Movie:title:A River Runs Through It";
                 "__resolveType" := JStr "Movie" ]}).
Proof.
  apply (resolve_found Sample.colonDecoder (fun _ : unit => tt)
           (fun (c : unit) (_ : unit) => c)
           (fun (_ : unit) (n : GlobalNode.Node) =>
              ("MATCH (this:" +:+ GlobalNode.name n +:+ ")", tt))
           (fun _ => Sample.noRecords) [Sample.actor; Sample.movie]
           "Movie:title:A River Runs Through It" tt tt Sample.movie);
    reflexivity.
Defined.

(** A record that has an [id] of its own does not override the token: the
    answer keeps the record's other properties and the token as [id]. *)
Example resolve_keeps_token :
  fst (GlobalNode.resolve Sample.colonDecoder (fun _ : unit => tt)
         (fun (c : unit) (_ : unit) => c)
         (fun (_ : unit) (n : GlobalNode.Node) => ("MATCH", tt))
         (fun _ => {| GlobalNode.records :=
                        [{| GlobalNode.this :=
                              Some {[ "id" := JStr "123455";
                                      "name" := JStr "Keanu" ]} |}] |})
         [Sample.actor; Sample.movie] "Actor:dbId:123455" tt tt)
  = Some {[ "id" := JStr "Actor:dbId:123455";
            "__resolveType" := JStr "Actor";
            "name" := JStr "Keanu" ]}.
Proof. vm_compute. reflexivity. Qed.

(** ** The caller-context parser *)

Section ParserFacts.
Import DotProp ContextParser.
Context {proto : Prototypes}.

Lemma split_go_cons (sep : string) (k : nat) (acc s : string) :
  exists x l, split_go sep k acc s = x :: l.
Proof.
  revert k acc. induction s as [|c s IH]; intros k acc; cbn [split_go];
    [by eauto|].
  destruct k; [|by apply IH].
  destruct (String.prefix sep (String c s)); [by eauto | by apply IH].
Qed.

Lemma getProp_normal (o : jsval) (k : string) :
  isNullish o = false ->
  getProp o k = Normal (default (inherited o k) (ownProperty o k)).
Proof. by destruct o. Qed.

Lemma chainValue_nullish (o : jsval) (k : string) (rest : list string) :
  isNullish o = true -> chainValue o (k :: rest) = JUndefined.
Proof. by destruct o. Qed.

Lemma chainValue_step (o : jsval) (k : string) (rest : list string) :
  isNullish o = false ->
  chainValue o (k :: rest)
  = chainValue (default (inherited o k) (ownProperty o k)) rest.
Proof.
  intros Ho. unfold chainValue. cbn [readChain].
  by rewrite (getProp_normal o k Ho).
Qed.

(** [walk] only reads properties of values that are neither [undefined]
    nor [null]: it never throws, and it arrives where the plain chain of
    reads arrives, with [undefined] where that chain would throw. *)
Lemma walk_chain (segs : list string) (o : jsval) :
  isNullish o = false -> walk o segs = Normal (chainValue o segs).
Proof.
  revert o. induction segs as [|k rest IH]; intros o Ho; [reflexivity|].
  rewrite (chainValue_step o k rest Ho). cbn [walk].
  rewrite (getProp_normal o k Ho).
  destruct (isNullish (default (inherited o k) (ownProperty o k))) eqn:Hn.
  - destruct rest as [|k' rest]; [reflexivity|].
    by rewrite chainValue_nullish.
  - by apply IH.
Qed.

Lemma split_value (path : string) :
  split "." ("value." +:+ path) = "value" :: split "." path.
Proof. destruct path; reflexivity. Qed.

Lemma split_jwt (path : string) :
  split "." ("jwt." +:+ path) = "jwt" :: split "." path.
Proof. destruct path; reflexivity. Qed.

Lemma joinEscaped_cons (rest : list string) (p : string) :
  exists x l, joinEscaped p rest = x :: l.
Proof.
  revert p. induction rest as [|q rest IH]; intros p; cbn [joinEscaped];
    [by eauto|].
  destruct (endsWithBackslash p); [by apply IH | by eauto].
Qed.

(** A path has one part at least. *)
Lemma pathParts_cons (path : string) : exists x l, pathParts path = x :: l.
Proof.
  unfold pathParts, split.
  destruct (split_go_cons "." 0 EmptyString path) as (x & l & ->).
  apply joinEscaped_cons.
Qed.

Lemma pathParts_value (path : string) :
  pathParts ("value." +:+ path) = "value" :: pathParts path.
Proof.
  unfold pathParts. rewrite split_value. unfold split.
  by destruct (split_go_cons "." 0 EmptyString path) as (x & l & ->).
Qed.

Lemma pathParts_jwt (path : string) :
  pathParts ("jwt." +:+ path) = "jwt" :: pathParts path.
Proof.
  unfold pathParts. rewrite split_jwt. unfold split.
  by destruct (split_go_cons "." 0 EmptyString path) as (x & l & ->).
Qed.

(** The segments of [value.path] and of [jwt.path] are those of [path]
    after the one more, and there are none when [path] has none. *)
Lemma getPathSegments_value (path : string) :
  getPathSegments ("value." +:+ path)
  = match getPathSegments path with
    | [] => []
    | segs => "value" :: segs
    end.
Proof.
  unfold getPathSegments. rewrite pathParts_value.
  destruct (pathParts_cons path) as (x & l & ->).
  change (isValidPath ("value" :: x :: l)) with (isValidPath (x :: l)).
  by destruct (isValidPath (x :: l)).
Qed.

Lemma getPathSegments_jwt (path : string) :
  getPathSegments ("jwt." +:+ path)
  = match getPathSegments path with
    | [] => []
    | segs => "jwt" :: segs
    end.
Proof.
  unfold getPathSegments. rewrite pathParts_jwt.
  destruct (pathParts_cons path) as (x & l & ->).
  change (isValidPath ("jwt" :: x :: l)) with (isValidPath (x :: l)).
  by destruct (isValidPath (x :: l)).
Qed.

(** What the lookup answers in general: nothing is thrown; a path that has
    segments reads as the value the plain chain of reads arrives at, and as
    [undefined] where that chain would throw; a path without segments reads
    as [undefined]. *)
Lemma getContextProperty_chain (path : string) (context : jsval) :
  getContextProperty path context
  = Normal match getPathSegments path with
           | [] => JUndefined
           | segs => chainValue context segs
           end.
Proof.
  unfold getContextProperty, get. cbn [isObj].
  rewrite getPathSegments_value.
  destruct (getPathSegments path) as [|x l]; [reflexivity|].
  remember (x :: l) as segs eqn:Hsegs.
  cbn [walk getProp ownProperty]. rewrite lookup_singleton_eq.
  cbn [default from_option id].
  destruct (isNullish context) eqn:Hn.
  - subst segs. by rewrite chainValue_nullish.
  - rewrite walk_chain by exact Hn. by subst segs.
Qed.

(** The lookup never throws, whatever the path and the context. *)
Lemma getContextProperty_normal (path : string) (context : jsval) :
  exists v, getContextProperty path context = Normal v.
Proof. rewrite getContextProperty_chain. by eauto. Qed.

Lemma getContextProperty_unresolved (path : string) (context : jsval) :
  resolves path context = false ->
  getContextProperty path context = Normal JUndefined.
Proof.
  unfold resolves. intros Hres. rewrite getContextProperty_chain.
  destruct (getPathSegments path) as [|x l]; [reflexivity|].
  unfold chainValue.
  destruct (readChain context (x :: l)) as [v|e]; [|reflexivity].
  by destruct v.
Qed.

End ParserFacts.

(** The parser on the caller of the Where tests, whose [jwt] holds the
    claim [sub]: a claim, a character and the length of a claim that is a
    string, an inherited member, a claim that is not there. *)
Example getJwtPropery_sub :
  ContextParser.getJwtPropery (proto := Sample.builtins) "sub" Sample.caller
  = Normal (JStr "id-01")
  /\ ContextParser.getJwtPropery (proto := Sample.builtins) "sub.0" Sample.caller
     = Normal (JStr "i")
  /\ ContextParser.getJwtPropery (proto := Sample.builtins) "sub.length" Sample.caller
     = Normal (JNum 5)
  /\ ContextParser.getJwtPropery (proto := Sample.builtins) "toString.name" Sample.caller
     = Normal (JStr "toString")
  /\ ContextParser.getJwtPropery (proto := Sample.builtins) "email" Sample.caller
     = Normal JUndefined
  /\ ContextParser.getJwtPropery (proto := Sample.builtins) "email.domain" Sample.caller
     = Normal JUndefined.
Proof. repeat split. Qed.

(** A refused segment and an escaped dot. *)
Example getContextProperty_segments :
  ContextParser.getContextProperty (proto := Sample.builtins) "constructor"
    (JObj {[ "constructor" := JStr "x" ]}) = Normal JUndefined
  /\ ContextParser.getContextProperty (proto := Sample.builtins)
       ("a" +:+ String DotProp.backslash ".b.c")
       (JObj {[ "a.b" := JObj {[ "c" := JNum 1 ]} ]}) = Normal (JNum 1).
Proof. repeat split. Qed.

Example parseTag_jwt :
  ContextParser.parseTag "$jwt.sub" ContextParser.TagJwt = Some "sub"
  /\ ContextParser.parseTag "$jwt.sub" ContextParser.TagContext = None
  /\ ContextParser.parseTag "$context.tenant.id" ContextParser.TagContext
     = Some "tenant.id"
  /\ ContextParser.parseTag "bob" ContextParser.TagJwt = None.
Proof. repeat split. Qed.

(** ** The compiled reads *)

Section ReadFacts.
Import Cypher.
Variable g : Graph.
Variable params : gmap string jsval.

Lemma Level_nested_ind (P : Level -> Prop) :
  (forall var label wheres allow fields conns,
      Forall (fun vc => P (snd vc)) conns ->
      P (MkLevel var label wheres allow fields conns)) ->
  forall l, P l.
Proof.
  intros step. fix IH 1. intros [var label wheres allow fields conns].
  apply step. induction conns as [|[via child] cs IHcs]; constructor.
  - apply IH.
  - exact IHcs.
Qed.

Lemma evalLevel_unfold (env : gmap string GNode) (l : Level) (n : GNode) :
  evalLevel g params env l n =
    if negb (passesWhere g params env l n) then Normal None
    else if validateFires g params env l n then Throw FORBIDDEN
    else match evalConns g (evalLevel g params (<[levelVar l := n]> env)) n
                 (levelConns l) with
         | Throw e => Throw e
         | Normal vs =>
             Normal (Some (VMap (map (fun f => (f, prop n f)) (levelFields l) ++ vs)))
         end.
Proof. destruct l. reflexivity. Qed.

Lemma evalConns_cons (ev : Level -> GNode -> completion (option cval))
    (n : GNode) (via : Via) (child : Level) (cs : list (Via * Level)) :
  evalConns g ev n ((via, child) :: cs) =
    match evalConnection (ev child)
            (related g (viaDir via) (viaType via) (levelLabel child) n) with
    | Throw e => Throw e
    | Normal v =>
        match evalConns g ev n cs with
        | Throw e => Throw e
        | Normal vs => Normal ((connName via, v) :: vs)
        end
    end.
Proof. reflexivity. Qed.

(** *** Rows *)

Lemma collectRows_throws (f : GNode -> completion (option cval))
    (rows : list GNode) (e : string) :
  collectRows f rows = Throw e -> exists m, In m rows /\ f m = Throw e.
Proof.
  induction rows as [|m rest IH]; simpl; [discriminate|].
  destruct (f m) as [r|e'] eqn:Hm.
  - destruct (collectRows f rest) as [vs|e'']; [discriminate|].
    intros [= ->]. destruct IH as (m' & Hin & Hm'); [reflexivity|].
    exists m'. by auto.
  - intros [= ->]. exists m. by auto.
Qed.

Lemma collectRows_hit (f : GNode -> completion (option cval))
    (rows : list GNode) (m : GNode) (e : string) :
  (forall m' e', In m' rows -> f m' = Throw e' -> e' = e) ->
  In m rows -> f m = Throw e -> collectRows f rows = Throw e.
Proof.
  intros Hone Hin Hm.
  destruct (collectRows f rows) as [vs|e'] eqn:Hc.
  - exfalso. clear Hone. induction rows as [|m0 rest IH] in vs, Hin, Hc |- *;
      [by destruct Hin|].
    simpl in Hc. destruct Hin as [->|Hin].
    + rewrite Hm in Hc. discriminate.
    + destruct (f m0); [|discriminate].
      destruct (collectRows f rest) eqn:Hr; [|discriminate].
      by eapply IH.
  - apply collectRows_throws in Hc as (m' & Hin' & Hm').
    f_equal. by eapply Hone.
Qed.


(** *** The only failure of a read *)

Lemma evalConnection_throws (child : GNode -> completion (option cval))
    (rows : list GNode) (e : string) :
  evalConnection child rows = Throw e ->
  exists m, In m rows /\ child m = Throw e.
Proof.
  unfold evalConnection.
  destruct (collectRows child rows) eqn:Hc; [discriminate|].
  intros [= ->]. by apply collectRows_throws.
Qed.

Lemma evalConns_throws (ev : Level -> GNode -> completion (option cval))
    (n : GNode) (cs : list (Via * Level)) (e : string) :
  evalConns g ev n cs = Throw e ->
  exists via child m,
    In (via, child) cs
    /\ In m (related g (viaDir via) (viaType via) (levelLabel child) n)
    /\ ev child m = Throw e.
Proof.
  induction cs as [|[via child] cs IH]; [discriminate|].
  rewrite evalConns_cons.
  destruct (evalConnection _ _) eqn:Hc.
  - destruct (evalConns g ev n cs); [discriminate|].
    intros [= ->]. destruct IH as (via' & child' & m & Hin & Hm & He);
      [reflexivity|].
    exists via', child', m. split; [by right | by auto].
  - intros [= ->]. apply evalConnection_throws in Hc as (m & Hm & He).
    exists via, child, m. split; [by left | by auto].
Qed.

(** Whatever a level throws is the access-denied message. *)
Lemma evalLevel_throws (l : Level) :
  forall env n e, evalLevel g params env l n = Throw e -> e = FORBIDDEN.
Proof.
  induction l as [var label wheres allow fields conns IH] using Level_nested_ind.
  intros env n e. rewrite evalLevel_unfold.
  destruct (negb _); [discriminate|].
  destruct (validateFires _ _ _ _ _); [by intros [= <-]|].
  destruct (evalConns _ _ _ _) eqn:Hc; [discriminate|].
  intros [= ->].
  apply evalConns_throws in Hc as (via & child & m & Hin & _ & He).
  rewrite Forall_forall in IH.
  eapply (IH (via, child)); [by apply list_elem_of_In | exact He].
Qed.

Lemma evalConns_hit (ev : Level -> GNode -> completion (option cval))
    (n : GNode) (cs : list (Via * Level)) (via : Via) (child : Level)
    (m : GNode) (e : string) :
  (forall c m' e', ev c m' = Throw e' -> e' = e) ->
  In (via, child) cs ->
  In m (related g (viaDir via) (viaType via) (levelLabel child) n) ->
  ev child m = Throw e ->
  evalConns g ev n cs = Throw e.
Proof.
  intros Hone Hin Hm He.
  induction cs as [|[via' child'] cs IH]; [by destruct Hin|].
  rewrite evalConns_cons.
  destruct (evalConnection _ _) as [v|e'] eqn:Hc.
  - destruct Hin as [[= -> ->]|Hin].
    + unfold evalConnection in Hc.
      rewrite (collectRows_hit _ _ m e) in Hc; [discriminate| |done|done].
      intros m' e' _. by apply Hone.
    + by rewrite IH.
  - apply evalConnection_throws in Hc as (m' & _ & He').
    f_equal. by eapply Hone.
Qed.

Lemma violates_throws (env : gmap string GNode) (l : Level) (n : GNode) :
  violates g params env l n ->
  evalLevel g params env l n = Throw FORBIDDEN.
Proof.
  induction 1 as [env l n Hw Hv | env l n via child m Hw Hin Hm _ IH];
    rewrite evalLevel_unfold, Hw; cbn [negb].
  - by rewrite Hv.
  - destruct (validateFires _ _ _ _ _); [reflexivity|].
    rewrite (evalConns_hit _ n _ via child m FORBIDDEN); [done| |done|done|done].
    intros c m' e'. by apply evalLevel_throws.
Qed.

(** C1. When an Allow rule evaluates false on a row the read reaches, at
    the root or at any connection below it, the statement ends with the
    access-denied failure: it returns no row at all, and the failure
    carries the one constant message. *)
Theorem read_aborts_on_violation (q : Level) (n : GNode) :
  In n (nodes g) ->
  hasLabel (levelLabel q) n = true ->
  violates g params ∅ q n ->
  evalRead g params q = Throw FORBIDDEN.
Proof.
  intros Hn Hl Hv. unfold evalRead.
  apply (collectRows_hit _ _ n).
  - intros m' e' _. by apply evalLevel_throws.
  - apply filter_In. by auto.
  - by apply violates_throws.
Qed.

(** No other failure can end a read. *)
Lemma read_only_failure (q : Level) (e : string) :
  evalRead g params q = Throw e -> e = FORBIDDEN.
Proof.
  unfold evalRead. intros H. apply collectRows_throws in H as (m & _ & H).
  by eapply evalLevel_throws.
Qed.

(** *** The total count of a connection *)



End ReadFacts.

Lemma read_aborts_on_violation_witness :
  Cypher.evalRead Sample.blog Sample.mixedParams Sample.mixed
  = Throw Cypher.FORBIDDEN.
Proof.
  apply (read_aborts_on_violation Sample.blog Sample.mixedParams Sample.mixed
           (Sample.user 1 "id-01" "bob")).
  - simpl. by left.
  - reflexivity.
  - apply (Cypher.violates_below _ _ _ _ _ Expected.postsVia
             (Cypher.MkLevel "this_post" "Post" []
                (Some (Expected.postRule Cypher.QAny "this_post")) ["content"] [])
             (Sample.post 11 "first")).
    + vm_compute. reflexivity.
    + simpl. by left.
    + vm_compute. by left.
    + apply Cypher.violates_here; vm_compute; reflexivity.
Defined.

(** ** A caller-context path that does not resolve *)

Section UnresolvedPath.
Import Cypher ContextParser Injector.
Context {proto : Prototypes}.

Lemma existsb_none {A} (f : A -> bool) (l : list A) :
  (forall x, f x = false) -> existsb f l = false.
Proof. intros Hf. induction l as [|x l IH]; simpl; [done|]. by rewrite Hf. Qed.

(** A predicate built around a leaf that is false on every row is false on
    every row. *)
Lemma guards_false (g : Graph) (params : gmap string jsval) (leaf e : cexpr) :
  (forall env, evalExpr g params env leaf = false) ->
  guards leaf e ->
  forall env, evalExpr g params env e = false.
Proof.
  intros Hleaf Hg.
  induction Hg as [|a b _ IH|a b _ IH|q x v d T L body _ IH]; intros env.
  - apply Hleaf.
  - cbn [evalExpr]. by rewrite IH.
  - cbn [evalExpr]. by rewrite IH, andb_false_r.
  - unfold authRel. cbn [evalExpr].
    destruct (env !! v) as [n|]; [|reflexivity].
    destruct (related g d T L n) as [|m R]; [reflexivity|].
    destruct q; cbn [existsb forallb andb].
    + rewrite IH. by rewrite existsb_none by (intros; apply IH).
    + by rewrite IH.
Qed.

(** C8. When the path of a [$context.] or [$jwt.] tag does not resolve in
    the caller context, the lookup of [ContextParser] answers [undefined]
    and throws nothing; the leaf of the rule is then the literal [false],
    with no parameter, so every predicate a rule builds around that leaf is
    false on every row, in every graph and under every parameter table: a
    WHERE that holds it (a Where rule) drops the row and a validation of it
    (an Allow rule) throws. *)
Theorem unresolved_path_degrades (t : TagName) (path : string)
    (context : jsval) :
  resolves (tagPath t path) context = false ->
  lookupTag t path context = Normal JUndefined
  /\ forall v f p : string,
       injectLeaf v f p (lookupTag t path context) = Normal (CFalse, ∅)
       /\ forall e, guards CFalse e ->
          forall (g : Graph) (params : gmap string jsval) env,
            evalExpr g params env e = false
            /\ (forall conjuncts,
                  In e conjuncts -> whereKeeps g params env conjuncts = false)
            /\ validateThrows g params env e = true.
Proof.
  intros Hres.
  assert (Hlook : lookupTag t path context = Normal JUndefined).
  { destruct t; cbn [lookupTag tagPath] in *; unfold getJwtPropery;
      by apply getContextProperty_unresolved. }
  split; [exact Hlook|].
  intros v f p. rewrite Hlook. split; [reflexivity|].
  intros e He g params env.
  assert (Hfalse : evalExpr g params env e = false)
    by (by apply (guards_false g params CFalse)).
  split; [exact Hfalse|]. split.
  - intros conjuncts Hin. unfold whereKeeps.
    apply not_true_is_false. intros Hall.
    rewrite forallb_forall in Hall. specialize (Hall e Hin).
    by rewrite Hfalse in Hall.
  - unfold validateThrows. by rewrite Hfalse.
Qed.

End UnresolvedPath.

(** The caller of the Where tests has no claim [email]: the rule
    [{ creator: { id: "$jwt.email" } }] on a post drops the row in a WHERE
    and throws in a validation. *)
Lemma unresolved_path_degrades_witness :
  ContextParser.lookupTag (proto := Sample.builtins) ContextParser.TagJwt "email"
    Sample.caller = Normal JUndefined
  /\ Injector.injectLeaf "auth_this0" "id" "this_postauth_param0"
       (ContextParser.lookupTag (proto := Sample.builtins) ContextParser.TagJwt
          "email" Sample.caller)
     = Normal (Cypher.CFalse, ∅)
  /\ Cypher.whereKeeps Sample.blog ∅ {[ "this_post" := Sample.post 11 "first" ]}
       [Sample.creatorRule Cypher.CFalse] = false
  /\ Cypher.validateThrows Sample.blog ∅
       {[ "this_post" := Sample.post 11 "first" ]}
       (Sample.creatorRule Cypher.CFalse) = true.
Proof.
  destruct (unresolved_path_degrades (proto := Sample.builtins)
              ContextParser.TagJwt "email" Sample.caller eq_refl) as [Hl Hr].
  split; [exact Hl|].
  destruct (Hr "auth_this0" "id" "this_postauth_param0") as [Hleaf Hrule].
  split; [exact Hleaf|].
  destruct (Hrule (Sample.creatorRule Cypher.CFalse)
              (Injector.guards_rel _ _ _ _ _ _ _ _ (Injector.guards_leaf _))
              Sample.blog ∅ {[ "this_post" := Sample.post 11 "first" ]})
    as (_ & Hw & Ha).
  split; [|exact Ha].
  apply Hw. simpl. by left.
Defined.

(** ** The statements of the tests, line for line *)

Section ExpectedText.
Import Cypher CypherText Expected.

Let forbidden : string := dq +:+ "@neo4j/graphql/FORBIDDEN" +:+ dq.

Example oneConnection_text :
  readLines oneConnection =
  [ "MATCH (this:`User`)";
    "CALL apoc.util.validate(NOT ((this.id IS NOT NULL AND this.id = $thisauth_param0)), "
      +:+ forbidden +:+ ", [0])";
    "CALL {";
    "WITH this";
    "MATCH (this)-[this_has_post_relationship:HAS_POST]->(this_post:Post)";
    "CALL apoc.util.validate(NOT ((exists((this_post)<-[:HAS_POST]-(:`User`)) AND any(auth_this0 IN [(this_post)<-[:HAS_POST]-(auth_this0:`User`) | auth_this0] WHERE (auth_this0.id IS NOT NULL AND auth_this0.id = $this_postauth_param0)))), "
      +:+ forbidden +:+ ", [0])";
    "WITH collect({ node: { content: this_post.content } }) AS edges";
    "UNWIND edges as edge";
    "WITH collect(edge) AS edges, size(collect(edge)) AS totalCount";
    "RETURN { edges: edges, totalCount: totalCount } AS postsConnection";
    "}";
    "RETURN this { .name, postsConnection } as this" ].
Proof. reflexivity. Qed.

Example twoConnection_text :
  readLines twoConnection =
  [ "MATCH (this:`User`)";
    "CALL apoc.util.validate(NOT ((this.id IS NOT NULL AND this.id = $thisauth_param0)), "
      +:+ forbidden +:+ ", [0])";
    "CALL {";
    "WITH this";
    "MATCH (this)-[this_has_post_relationship:HAS_POST]->(this_post:Post)";
    "CALL apoc.util.validate(NOT ((exists((this_post)<-[:HAS_POST]-(:`User`)) AND any(auth_this0 IN [(this_post)<-[:HAS_POST]-(auth_this0:`User`) | auth_this0] WHERE (auth_this0.id IS NOT NULL AND auth_this0.id = $this_postauth_param0)))), "
      +:+ forbidden +:+ ", [0])";
    "CALL {";
    "WITH this_post";
    "MATCH (this_post)<-[this_post_has_post_relationship:HAS_POST]-(this_post_user:User)";
    "CALL apoc.util.validate(NOT ((this_post_user.id IS NOT NULL AND this_post_user.id = $this_post_userauth_param0)), "
      +:+ forbidden +:+ ", [0])";
    "WITH collect({ node: { name: this_post_user.name } }) AS edges";
    "UNWIND edges as edge";
    "WITH collect(edge) AS edges, size(collect(edge)) AS totalCount";
    "RETURN { edges: edges, totalCount: totalCount } AS creatorConnection";
    "}";
    "WITH collect({ node: { content: this_post.content, creatorConnection: creatorConnection } }) AS edges";
    "UNWIND edges as edge";
    "WITH collect(edge) AS edges, size(collect(edge)) AS totalCount";
    "RETURN { edges: edges, totalCount: totalCount } AS postsConnection";
    "}";
    "RETURN this { .name, postsConnection } as this" ].
Proof. reflexivity. Qed.

Example readConnection_text :
  readLines readConnection =
  [ "MATCH (this:`User`)";
    "WHERE (this.id IS NOT NULL AND this.id = $thisauth_param0)";
    "CALL {";
    "WITH this";
    "MATCH (this)-[this_has_post_relationship:HAS_POST]->(this_post:Post)";
    "WHERE (exists((this_post)<-[:HAS_POST]-(:`User`)) AND all(auth_this0 IN [(this_post)<-[:HAS_POST]-(auth_this0:`User`) | auth_this0] WHERE (auth_this0.id IS NOT NULL AND auth_this0.id = $this_postauth_param0)))";
    "WITH collect({ node: { content: this_post.content } }) AS edges";
    "UNWIND edges as edge";
    "WITH collect(edge) AS edges, size(collect(edge)) AS totalCount";
    "RETURN { edges: edges, totalCount: totalCount } AS postsConnection";
    "}";
    "RETURN this { .id, postsConnection } as this" ].
Proof. reflexivity. Qed.

Example readConnectionWhere_text :
  readLines readConnectionWhere =
  [ "MATCH (this:`User`)";
    "WHERE (this.id IS NOT NULL AND this.id = $thisauth_param0)";
    "CALL {";
    "WITH this";
    "MATCH (this)-[this_has_post_relationship:HAS_POST]->(this_post:Post)";
    "WHERE this_post.id = $this_postsConnection_args_where_Postparam0 AND (exists((this_post)<-[:HAS_POST]-(:`User`)) AND all(auth_this0 IN [(this_post)<-[:HAS_POST]-(auth_this0:`User`) | auth_this0] WHERE (auth_this0.id IS NOT NULL AND auth_this0.id = $this_postauth_param0)))";
    "WITH collect({ node: { content: this_post.content } }) AS edges";
    "UNWIND edges as edge";
    "WITH collect(edge) AS edges, size(collect(edge)) AS totalCount";
    "RETURN { edges: edges, totalCount: totalCount } AS postsConnection";
    "}";
    "RETURN this { .id, postsConnection } as this" ].
Proof. reflexivity. Qed.

Example readNodeWhere_text :
  readLines readNodeWhere =
  [ "MATCH (this:`User`)";
    "WHERE (this.name = $param0 AND (this.id IS NOT NULL AND this.id = $thisauth_param0))";
    "RETURN this { .id } as this" ].
Proof. reflexivity. Qed.

(** The leaf of a rule whose path resolves is the comparison of the
    expected statements, with the caller's value as the parameter: the rule
    [{ id: "$jwt.sub" }] of "Read Node" for the caller [id-01]. *)
Example injectLeaf_resolved :
  Injector.injectLeaf "this" "id" "thisauth_param0"
    (ContextParser.lookupTag (proto := Sample.builtins) ContextParser.TagJwt "sub"
       Sample.caller)
  = Normal (userAllow "this", {[ "thisauth_param0" := JStr "id-01" ]}).
Proof. reflexivity. Qed.

(** "Read Connection" on the sample graph for the caller [id-01]: the other
    user and the other user's post are left out, and the count is that of
    the edges returned. *)
Example readConnection_on_blog :
  evalRead Sample.blog Sample.whereParams readConnection =
  Normal
    [VMap
       [("id", VStr "id-01");
        ("postsConnection",
         VMap
           [("edges",
             VList [VMap [("node", VMap [("content", VStr "first")])];
                    VMap [("node", VMap [("content", VStr "second")])]]);
            ("totalCount", VInt 2)])]].
Proof. vm_compute. reflexivity. Qed.

(** "One connection" on the same graph: the caller [super_admin] is none of
    its users, so nothing is returned. *)
Example oneConnection_on_blog :
  evalRead Sample.blog oneConnectionParams oneConnection = Throw FORBIDDEN.
Proof. vm_compute. reflexivity. Qed.

End ExpectedText.

(** ** More on the caller-context parser *)

Section ParserCoverage.
Import DotProp ContextParser.
Context {proto : Prototypes}.

Lemma append_char (acc : string) (c : Ascii.ascii) (s : string) :
  (acc +:+ String c EmptyString) +:+ s = acc +:+ String c s.
Proof.
  induction acc as [|a acc IH]; [reflexivity|].
  change (String a ((acc +:+ String c EmptyString) +:+ s)
          = String a (acc +:+ String c s)).
  by rewrite IH.
Qed.

Lemma append_empty (s : string) : s +:+ EmptyString = s.
Proof.
  induction s as [|a s IH]; [reflexivity|].
  change (String a (s +:+ EmptyString) = String a s). by rewrite IH.
Qed.

(** A string in which the separator does not occur is one piece. *)
Lemma split_go_whole (sep s acc : string) :
  includes sep s = false -> split_go sep 0 acc s = [acc +:+ s].
Proof.
  revert acc. induction s as [|c s IH]; intros acc H; cbn [split_go].
  - by rewrite append_empty.
  - cbn [includes] in H. apply orb_false_elim in H as [Hp Hs].
    rewrite Hp, IH by exact Hs. by rewrite append_char.
Qed.

(** A string in which a separator that is not empty occurs has two pieces
    at least. *)
Lemma split_go_two (a : Ascii.ascii) (r s acc : string) :
  includes (String a r) s = true ->
  exists x y l, split_go (String a r) 0 acc s = x :: y :: l.
Proof.
  revert acc. induction s as [|c s IH]; intros acc H; [discriminate|].
  cbn [split_go]. cbn [includes] in H.
  destruct (String.prefix (String a r) (String c s)) eqn:Hp.
  - destruct (split_go_cons (String a r) (String.length (String a r) - 1)
                EmptyString s) as (y & l & ->).
    by eauto.
  - by apply IH.
Qed.

(** X1. [parseTag] answers a path exactly when [$jwt.] (or [$context.])
    occurs in the value, wherever it stands in the string; a string in
    which it does not occur gives [undefined]. *)
Theorem parseTag_some_iff_mentions (value : string) (t : TagName) :
  match parseTag value t with
  | Some _ => true
  | None => false
  end = mentionsTag t value.
Proof.
  unfold parseTag, mentionsTag, split. fold (tagPrefix t).
  destruct (includes (tagPrefix t) value) eqn:Hi.
  - assert (Hne : exists a r, tagPrefix t = String a r)
      by (destruct t; by eauto).
    destruct Hne as (a & r & Ht). rewrite Ht in *.
    by destruct (split_go_two a r value EmptyString Hi) as (x & y & l & ->).
  - by rewrite split_go_whole.
Qed.

Lemma split_go_tagged (t : TagName) (acc path : string) :
  split_go (tagPrefix t) 0 acc (tagPrefix t +:+ path)
  = acc :: split (tagPrefix t) path.
Proof. destruct t, path; reflexivity. Qed.

Lemma tagPrefix_dollar (t : TagName) (c : Ascii.ascii) (s s' : string) :
  String.prefix "$" (String c s) = false ->
  String.prefix (tagPrefix t) (String c s') = false.
Proof.
  intros H. cbn [String.prefix] in H.
  destruct t;
    [change (tagPrefix TagContext) with "$context."
    |change (tagPrefix TagJwt) with "$jwt."];
    cbn [String.prefix];
    (match type of H with
     | context [Ascii.ascii_dec ?a c] => destruct (Ascii.ascii_dec a c)
     end; [by destruct s | reflexivity]).
Qed.

(** Text without a dollar sign is read into the piece at hand. *)
Lemma split_go_skip (t : TagName) (pre acc rest : string) :
  includes "$" pre = false ->
  split_go (tagPrefix t) 0 acc (pre +:+ rest)
  = split_go (tagPrefix t) 0 (acc +:+ pre) rest.
Proof.
  revert acc. induction pre as [|c pre IH]; intros acc H.
  - by rewrite append_empty.
  - cbn [includes] in H. apply orb_false_elim in H as [Hc Hpre].
    change (String c pre +:+ rest) with (String c (pre +:+ rest)).
    cbn [split_go]. rewrite (tagPrefix_dollar t c _ _ Hc), IH by exact Hpre.
    by rewrite append_char.
Qed.

(** X2. The path [parseTag] answers is what stands between the first tag
    and the end of the value or the next tag: text before the tag is
    dropped, and so is a second tag with all that follows it. With nothing
    before and nothing after, the tag and a path parse back to the path. *)
Theorem parseTag_path (t : TagName) (pre path tail : string) :
  includes "$" pre = false ->
  includes "$" path = false ->
  tail = EmptyString \/ (exists more, tail = tagPrefix t +:+ more) ->
  parseTag (pre +:+ tagPrefix t +:+ path +:+ tail) t = Some path.
Proof.
  intros Hpre Hpath Htail. unfold parseTag, split. fold (tagPrefix t).
  rewrite split_go_skip by exact Hpre. cbn [String.append].
  rewrite split_go_tagged. unfold split.
  rewrite split_go_skip by exact Hpath. cbn [String.append].
  destruct Htail as [->|[more ->]].
  - reflexivity.
  - by rewrite split_go_tagged.
Qed.

(** X11. The two tags do not mix: a value made of one tag and a path
    without a dollar sign is no tag of the other kind, so [parseTag] with
    the other tag name answers [undefined] for it. *)
Theorem parseTag_other_tag (t t' : TagName) (path : string) :
  t <> t' ->
  includes "$" path = false ->
  parseTag (tagPrefix t +:+ path) t' = None.
Proof.
  intros Hne Hpath. unfold parseTag, split. fold (tagPrefix t').
  assert (Hgo : split_go (tagPrefix t') 0 EmptyString (tagPrefix t +:+ path)
                = split_go (tagPrefix t') 0 (tagPrefix t) path).
  { destruct t, t'; try done; reflexivity. }
  rewrite Hgo, <- (append_empty path), split_go_skip by exact Hpath.
  reflexivity.
Qed.

(** X3. [getContextProperty] throws for no path and no context, be it
    [undefined], [null], a primitive or an object. It answers what the
    plain chain of reads [context.a.b.c] along the segments of the path
    arrives at (own properties, the characters and the length of a string,
    inherited members), and [undefined] where that chain would throw
    because it has met [undefined] or [null], and for a path with a
    segment [__proto__], [prototype] or [constructor]. The wrapping in
    [{ value: context }] does not show in the answer. *)
Theorem getContextProperty_reads_path (path : string) (context : jsval) :
  getContextProperty path context
  = Normal match getPathSegments path with
           | [] => JUndefined
           | segs =>
               match readChain context segs with
               | Normal v => v
               | Throw _ => JUndefined
               end
           end.
Proof. apply getContextProperty_chain. Qed.

(** X4. Reading a claim is reading its path inside the [jwt] property of the
    context: [getJwtPropery(path, context)] is
    [getContextProperty(path, context.jwt)], and [undefined] for every path
    when the context has no [jwt] property or is [undefined] or [null]. *)
Theorem getJwtPropery_reads_under_jwt (path : string) (context : jsval) :
  getJwtPropery path context = getContextProperty path (jwtOf context).
Proof.
  unfold getJwtPropery. rewrite !getContextProperty_chain, getPathSegments_jwt.
  destruct (getPathSegments path) as [|x l]; [reflexivity|].
  f_equal. unfold jwtOf.
  destruct (isNullish context) eqn:Hn.
  - rewrite chainValue_nullish by exact Hn.
    destruct context; try discriminate; cbn [getProp];
      by rewrite chainValue_nullish.
  - rewrite chainValue_step by exact Hn. by rewrite getProp_normal.
Qed.

(** X5. For a context that is [undefined] or [null] every path and every
    claim reads as [undefined], and nothing is thrown. *)
Theorem getContextProperty_of_nullish (path : string) (context : jsval) :
  isNullish context = true ->
  getContextProperty path context = Normal JUndefined
  /\ getJwtPropery path context = Normal JUndefined.
Proof.
  intros Hn.
  assert (Hall : forall p, getContextProperty p context = Normal JUndefined).
  { intros p. rewrite getContextProperty_chain.
    destruct (getPathSegments p) as [|x l]; [reflexivity|].
    by rewrite chainValue_nullish. }
  split; [apply Hall | apply Hall].
Qed.

End ParserCoverage.

Lemma parseTag_path_witness :
  ContextParser.parseTag "$jwt.sub" ContextParser.TagJwt = Some "sub"
  /\ ContextParser.parseTag "user-$context.tenant.id$context.rest"
       ContextParser.TagContext = Some "tenant.id".
Proof.
  split.
  - apply (parseTag_path ContextParser.TagJwt EmptyString "sub" EmptyString);
      [reflexivity | reflexivity | by left].
  - apply (parseTag_path ContextParser.TagContext "user-" "tenant.id"
             "$context.rest");
      [reflexivity | reflexivity | right; by exists "rest"].
Defined.

Lemma parseTag_other_tag_witness :
  ContextParser.parseTag "$jwt.sub" ContextParser.TagContext = None
  /\ ContextParser.parseTag "$context.tenant" ContextParser.TagJwt = None.
Proof.
  split.
  - apply (parseTag_other_tag ContextParser.TagJwt ContextParser.TagContext "sub");
      [discriminate | reflexivity].
  - apply (parseTag_other_tag ContextParser.TagContext ContextParser.TagJwt
             "tenant"); [discriminate | reflexivity].
Defined.

Lemma getContextProperty_of_nullish_witness :
  ContextParser.getContextProperty (proto := Sample.builtins) "jwt.sub" JNull
  = Normal JUndefined
  /\ ContextParser.getJwtPropery (proto := Sample.builtins) "jwt.sub" JNull
     = Normal JUndefined.
Proof.
  apply (getContextProperty_of_nullish (proto := Sample.builtins) "jwt.sub" JNull).
  reflexivity.
Defined.

(** ** More on the global node resolver *)

Section ResolverCoverage.
Import GlobalNode.
Context {Context Info ResolveTree Params : Type}.
Variable fromGlobalId : string -> GlobalIdParts.
Variable getNeo4jResolveTree : Info -> ResolveTree.
Variable withResolveTree : Context -> ResolveTree -> Context.
Variable translateRead : Context -> Node -> string * Params.
Variable execute : @ExecuteInput Context Params -> ExecuteResult.

Abbreviation resolveWith decoder :=
  (GlobalNode.resolve decoder getNeo4jResolveTree withResolveTree translateRead
     execute).

(** X6. Whatever the token, [resolve] runs one statement at most, with the
    access mode READ, and that statement is what [translateRead] returned
    for a node of the schema whose main label is the decoded label, under
    the context that carries the resolve tree of [info]. *)
Theorem resolve_runs_read_of_schema_node (nodes : list Node) (token : string)
    (_context : Context) (info : Info) :
  let queries := snd (resolveWith fromGlobalId nodes token _context info) in
  length queries <= 1
  /\ Forall (fun input =>
               defaultAccessMode input = "READ"
               /\ context input = withResolveTree _context (getNeo4jResolveTree info)
               /\ exists node,
                    In node nodes
                    /\ labelMatches (label (fromGlobalId token)) node = true
                    /\ translateRead (context input) node
                       = (cypher input, params input))
            queries.
Proof.
  unfold GlobalNode.resolve.
  destruct (_ || _); [by split; [simpl; lia | constructor]|].
  destruct (List.find _ nodes) as [node|] eqn:Hfind;
    [|by split; [simpl; lia | constructor]].
  apply find_some in Hfind as [Hin Hmatch].
  destruct (translateRead _ node) as [cy ps] eqn:Htr. simpl.
  split; [lia|]. constructor; [|constructor].
  simpl. split; [reflexivity|]. split; [reflexivity|].
  exists node. by rewrite Htr.
Qed.

(** X7. When the statement returns records and the first has a [this], the
    answer carries every property of that [this] except [id] and
    [__resolveType], which stay the token and the name of the node found
    for the decoded label; the records after the first are not read. *)
Theorem resolve_merges_first_record (nodes : list Node) (token : string)
    (_context : Context) (info : Info)
    (input : ExecuteInput) (row : gmap string jsval) (rest : list Row) :
  snd (resolveWith fromGlobalId nodes token _context info) = [input] ->
  records (execute input) = {| this := Some row |} :: rest ->
  exists obj node,
    fst (resolveWith fromGlobalId nodes token _context info) = Some obj
    /\ List.find (labelMatches (label (fromGlobalId token))) nodes = Some node
    /\ obj !! "id" = Some (JStr token)
    /\ obj !! "__resolveType" = Some (JStr (name node))
    /\ forall k, k <> "id" -> k <> "__resolveType" -> obj !! k = row !! k.
Proof.
  unfold GlobalNode.resolve.
  destruct (_ || _); [discriminate|].
  destruct (List.find _ nodes) as [node|]; [|discriminate].
  destruct (translateRead _ node) as [cy ps]. simpl.
  intros [= <-] ->. eexists. exists node. split; [reflexivity|]. unfold spread.
  split; [reflexivity|].
  split; [by apply lookup_union_Some_l; simplify_map_eq|].
  split; [by apply lookup_union_Some_l; simplify_map_eq|].
  intros k Hid Hty. apply lookup_union_r. by simplify_map_eq.
Qed.

Variable otherDecoder : string -> GlobalIdParts.

(** X8. The decoded field and id are only tested for being there: two
    decoders that agree on the label of a token and on whether all three
    components are there give the same answer and the same statement.
    Neither value reaches [translateRead] or [execute]. *)
Theorem resolve_ignores_field_and_id (nodes : list Node) (token : string)
    (_context : Context) (info : Info) :
  label (fromGlobalId token) = label (otherDecoder token) ->
  decodesFully (fromGlobalId token) = decodesFully (otherDecoder token) ->
  resolveWith fromGlobalId nodes token _context info
  = resolveWith otherDecoder nodes token _context info.
Proof.
  intros Hl Hd. unfold GlobalNode.resolve.
  rewrite !resolve_guard, Hd, Hl. reflexivity.
Qed.

(** X9. Only the first node whose main label is the decoded label counts:
    the answer over the whole schema is the answer over that node alone,
    so nodes before it that do not match and every node after it change
    nothing. *)
Theorem resolve_first_match_only (nodes : list Node) (token : string)
    (_context : Context) (info : Info) (node : Node) :
  List.find (labelMatches (label (fromGlobalId token))) nodes = Some node ->
  resolveWith fromGlobalId nodes token _context info
  = resolveWith fromGlobalId [node] token _context info.
Proof.
  intros Hfind. unfold GlobalNode.resolve.
  destruct (_ || _); [reflexivity|].
  rewrite Hfind. apply find_some in Hfind as [_ Hmatch].
  cbn [List.find]. by rewrite Hmatch.
Qed.

(** X10. A token one of whose components decodes to [undefined], [null],
    [false], the number 0 or the empty string is answered with [null] and
    no statement, also when its label is the main label of a node: a node
    whose identifying value is 0 or empty cannot be fetched. *)
Theorem resolve_falsy_component (nodes : list Node) (token : string)
    (_context : Context) (info : Info) (v : jsval) :
  In v falsy ->
  label (fromGlobalId token) = v \/ field (fromGlobalId token) = v
  \/ id (fromGlobalId token) = v ->
  resolveWith fromGlobalId nodes token _context info = (None, []).
Proof.
  intros Hv Hc. unfold GlobalNode.resolve.
  assert (Ht : truthy v = false).
  { simpl in Hv.
    destruct Hv as [<- | [<- | [<- | [<- | [<- | []]]]]]; reflexivity. }
  destruct Hc as [-> | [-> | ->]]; rewrite Ht; simpl;
    rewrite ?orb_true_r; reflexivity.
Qed.

End ResolverCoverage.

Abbreviation sampleResolveWith decoder result :=
  (GlobalNode.resolve decoder (fun _ : unit => tt)
     (fun (c : unit) (_ : unit) => c)
     (fun (_ : unit) (n : GlobalNode.Node) =>
        ("MATCH (this:" +:+ GlobalNode.name n +:+ ")", tt))
     (fun _ => result) [Sample.actor; Sample.movie]).

Lemma resolve_merges_first_record_witness :
  exists obj node,
    fst (sampleResolveWith Sample.colonDecoder Sample.keanu
           "Actor:dbId:123455" tt tt) = Some obj
    /\ List.find
         (GlobalNode.labelMatches
            (GlobalNode.label (Sample.colonDecoder "Actor:dbId:123455")))
         [Sample.actor; Sample.movie] = Some node
    /\ obj !! "id" = Some (JStr "Actor:dbId:123455")
    /\ obj !! "__resolveType" = Some (JStr (GlobalNode.name node))
    /\ forall k, k <> "id" -> k <> "__resolveType" ->
                 obj !! k
                 = ({[ "id" := JStr "123455"; "name" := JStr "Keanu" ]}
                    : gmap string jsval) !! k.
Proof.
  apply (resolve_merges_first_record Sample.colonDecoder (fun _ : unit => tt)
           (fun (c : unit) (_ : unit) => c)
           (fun (_ : unit) (n : GlobalNode.Node) =>
              ("MATCH (this:" +:+ GlobalNode.name n +:+ ")", tt))
           (fun _ => Sample.keanu) [Sample.actor; Sample.movie]
           "Actor:dbId:123455" tt tt
           {| GlobalNode.cypher := "MATCH (this:Actor)"; GlobalNode.params := tt;
              GlobalNode.defaultAccessMode := "READ"; GlobalNode.context := tt |}
           {[ "id" := JStr "123455"; "name" := JStr "Keanu" ]} []);
    reflexivity.
Defined.

Lemma resolve_ignores_field_and_id_witness :
  sampleResolveWith Sample.colonDecoder Sample.keanu "Movie:title:Heat" tt tt
  = sampleResolveWith Sample.labelDecoder Sample.keanu "Movie:title:Heat" tt tt.
Proof.
  apply (resolve_ignores_field_and_id Sample.colonDecoder (fun _ : unit => tt)
           (fun (c : unit) (_ : unit) => c)
           (fun (_ : unit) (n : GlobalNode.Node) =>
              ("MATCH (this:" +:+ GlobalNode.name n +:+ ")", tt))
           (fun _ => Sample.keanu) Sample.labelDecoder);
    reflexivity.
Defined.

Lemma resolve_first_match_only_witness :
  sampleResolveWith Sample.colonDecoder Sample.keanu "Movie:title:Heat" tt tt
  = GlobalNode.resolve Sample.colonDecoder (fun _ : unit => tt)
      (fun (c : unit) (_ : unit) => c)
      (fun (_ : unit) (n : GlobalNode.Node) =>
         ("MATCH (this:" +:+ GlobalNode.name n +:+ ")", tt))
      (fun _ => Sample.keanu) [Sample.movie] "Movie:title:Heat" tt tt.
Proof.
  apply (resolve_first_match_only Sample.colonDecoder (fun _ : unit => tt)
           (fun (c : unit) (_ : unit) => c)
           (fun (_ : unit) (n : GlobalNode.Node) =>
              ("MATCH (this:" +:+ GlobalNode.name n +:+ ")", tt))
           (fun _ => Sample.keanu)).
  reflexivity.
Defined.

Lemma resolve_falsy_component_witness :
  sampleResolveWith Sample.intDecoder Sample.keanu "Movie:id:0" tt tt
  = (None, []).
Proof.
  apply (resolve_falsy_component Sample.intDecoder (fun _ : unit => tt)
           (fun (c : unit) (_ : unit) => c)
           (fun (_ : unit) (n : GlobalNode.Node) =>
              ("MATCH (this:" +:+ GlobalNode.name n +:+ ")", tt))
           (fun _ => Sample.keanu) [Sample.actor; Sample.movie]
           "Movie:id:0" tt tt (JNum 0)).
  - simpl. by auto.
  - right. right. reflexivity.
Defined.

(** The unit test of the resolver: the field over a schema with the one
    node [Movie]. *)
Example globalNodeResolver_test :
  let result :=
    GlobalNode.globalNodeResolver Sample.colonDecoder (fun _ : unit => tt)
      (fun (c : unit) (_ : unit) => c)
      (fun (_ : unit) (n : GlobalNode.Node) => ("MATCH", tt))
      (fun _ => Sample.noRecords) [Sample.movie] in
  GlobalNode.fieldType result = "Node"
  /\ GlobalNode.fieldArgs result = {[ "id" := "ID!" ]}.
Proof. split; reflexivity. Qed.
